(** * Statement dashboard (src/app.py): a shallow embedding

    The uploaded spreadsheet becomes a pandas DataFrame with one row per
    user.  A row is modelled as a record whose fields are the columns the
    script reads; numeric cells are exact rationals (the floating-point
    cells of pandas, read without rounding), identifiers are strings.  The
    DataFrame index produced by [pd.read_excel] is the RangeIndex
    [0 .. n-1], so row labels are list positions.  Missing cells (NaN) are
    not part of this model. *)

From Stdlib Require Import String Ascii List QArith Lqa Sorting Permutation
  Lia Bool PeanoNat.
Import ListNotations.

Open Scope Q_scope.

(** ** Data model *)

Record row := mkrow {
  UserID : string;
  Revenue : Q;
  COGS : Q;
  GrossProfit : Q;
  NetProfit : Q;
  NetProfitMargin : Q;
  GrossProfitMargin : Q;
  OperatingExpenseRatio : Q;
  TotalAssets : Q;
  TotalLiabilities : Q;
  CashAndBankBalance : Q;
  AccountReceivables : Q;
  Inventory : Q;
  DepositsAdvancesPrepayments : Q;
  AccountPayables : Q;
  WagesPayable : Q;
  ProvisionsAccruals : Q;
  OtherPayables : Q
}.

Definition table := list row.

(** The numeric columns, i.e. the names accepted by [df[...]] for numbers. *)
Inductive column :=
| CRevenue | CCOGS | CGrossProfit | CNetProfit | CNetProfitMargin
| CGrossProfitMargin | COperatingExpenseRatio | CTotalAssets
| CTotalLiabilities | CCashAndBankBalance | CAccountReceivables
| CInventory | CDepositsAdvancesPrepayments | CAccountPayables
| CWagesPayable | CProvisionsAccruals | COtherPayables.

Definition get (c : column) (r : row) : Q :=
  match c with
  | CRevenue => Revenue r
  | CCOGS => COGS r
  | CGrossProfit => GrossProfit r
  | CNetProfit => NetProfit r
  | CNetProfitMargin => NetProfitMargin r
  | CGrossProfitMargin => GrossProfitMargin r
  | COperatingExpenseRatio => OperatingExpenseRatio r
  | CTotalAssets => TotalAssets r
  | CTotalLiabilities => TotalLiabilities r
  | CCashAndBankBalance => CashAndBankBalance r
  | CAccountReceivables => AccountReceivables r
  | CInventory => Inventory r
  | CDepositsAdvancesPrepayments => DepositsAdvancesPrepayments r
  | CAccountPayables => AccountPayables r
  | CWagesPayable => WagesPayable r
  | CProvisionsAccruals => ProvisionsAccruals r
  | COtherPayables => OtherPayables r
  end.

(** ** The pandas and Python operations the script calls *)
Module Pandas.

(** [df[c]]: the column as a Series, and [df.index]. *)
Definition series (c : column) (df : table) : list Q := map (get c) df.
Definition ids (df : table) : list string := map UserID df.
Definition indexed (df : table) : list (nat * row) :=
  combine (seq 0 (length df)) df.

(** [Series.sum()]: the values added up from 0. *)
Definition sum (xs : list Q) : Q := fold_left Qplus xs 0.

(** [Series.mean()]: the sum divided by the count; NaN ([None]) on an
    empty Series. *)
Definition mean (xs : list Q) : option Q :=
  match xs with
  | [] => None
  | _ => Some (sum xs / inject_Z (Z.of_nat (length xs)))
  end.

(** [Series.unique()]: the distinct values in order of first appearance. *)
Fixpoint unique_go (seen : list string) (l : list string) : list string :=
  match l with
  | [] => []
  | x :: xs =>
      if existsb (String.eqb x) seen then unique_go seen xs
      else x :: unique_go (x :: seen) xs
  end.
Definition unique (l : list string) : list string := unique_go [] l.

(** [Series.nunique()]: the number of distinct values. *)
Definition nunique (l : list string) : nat := length (unique l).

(** Python's [sorted] on strings (code-point order, [String.compare] on
    ASCII); an insertion sort, stable as Python's sort is. *)
Fixpoint insert_str (x : string) (l : list string) : list string :=
  match l with
  | [] => [x]
  | y :: ys => if String.leb x y then x :: y :: ys else y :: insert_str x ys
  end.
Fixpoint sorted (l : list string) : list string :=
  match l with
  | [] => []
  | x :: xs => insert_str x (sorted xs)
  end.

(** The order in which [Series.nlargest] returns its candidates when [n]
    is smaller than the row count: descending values, equal values in the
    order of their index (pandas negates the values and sorts them with
    [argsort(kind="mergesort")], a stable sort).  The sort inserts a row in
    front of the first row that is not larger. *)
Fixpoint insert_desc (c : column) (x : nat * row) (l : list (nat * row))
  : list (nat * row) :=
  match l with
  | [] => [x]
  | y :: ys =>
      if Qle_bool (get c (snd y)) (get c (snd x)) then x :: y :: ys
      else y :: insert_desc c x ys
  end.
Fixpoint sort_desc (c : column) (l : list (nat * row)) : list (nat * row) :=
  match l with
  | [] => []
  | x :: xs => insert_desc c x (sort_desc c xs)
  end.
(** [df[df["UserID"] == v]]: the rows whose identifier equals [v]. *)
Definition select_eq (df : table) (v : string) : list (nat * row) :=
  filter (fun ir => String.eqb (UserID (snd ir)) v) (indexed df).

(** [.iloc[0]]: the first row, or an [IndexError] ([None]). *)
Definition iloc0 (l : list (nat * row)) : option row :=
  match l with
  | [] => None
  | (_, r) :: _ => Some r
  end.

End Pandas.

Import Pandas.

(** A sort of labelled rows in descending order of a column: a
    permutation whose values never increase.  NumPy's default sort is
    assumed to be one; nothing is assumed about the order of equal
    values. *)
Definition desc_by (c : column) (a b : nat * row) : Prop :=
  get c (snd b) <= get c (snd a).

Definition sort_values_ok
  (sv : column -> list (nat * row) -> list (nat * row)) : Prop :=
  forall c l, Permutation (sv c l) l /\ Sorted (desc_by c) (sv c l).

Section Page.

(** [Series.sort_values(ascending=False)]: NumPy's default [quicksort]
    kind, which is not stable and whose order of equal values depends on
    the platform; it is a variable of the development. *)
Variable sort_values_desc : column -> list (nat * row) -> list (nat * row).

(** [DataFrame.nlargest(n, c)] with the default [keep='first'] (pandas'
    [SelectNFrame] and [SelectNSeries]), each row with its index label.
    The columns of a table with no rows, as [pd.read_excel] returns it for
    a sheet with only a header, have the object dtype, which [nlargest]
    refuses with a [TypeError] ([None]).  When [n] is at least the row
    count pandas returns [sort_values(ascending=False).head(n)]; otherwise
    the first [n] rows in the stable order of [sort_desc]. *)
Definition nlargest (n : nat) (c : column) (df : table)
  : option (list (nat * row)) :=
  match df with
  | [] => None
  | _ :: _ =>
      if Nat.leb (length df) n
      then Some (firstn n (sort_values_desc c (indexed df)))
      else Some (firstn n (sort_desc c (indexed df)))
  end.

(** ** The page (lines 17-145) *)

(** Line 24: the options of the "Select a View" box. *)
Definition user_list (df : table) : list string :=
  "Overview"%string :: sorted (unique (ids df)).

(** Lines 38-82: what the overview renders: the four KPIs and the data of
    the two top-N charts (the histogram, box and scatter charts plot the
    whole table).  A top-N field is [None] when [df.nlargest] raises its
    [TypeError]: the script stops at line 61, after the KPIs, and shows
    the error instead of the charts (line 79 raises on the same tables). *)
Record overview := mkoverview {
  total_revenue : Q;
  avg_net_profit_margin : option Q;
  total_assets : Q;
  total_users : nat;
  top_10_users : option (list (nat * row));
  top_20_assets : option (list (nat * row))
}.

Definition overview_of (df : table) : overview :=
  {| total_revenue := sum (series CRevenue df);
     avg_net_profit_margin := mean (series CNetProfitMargin df);
     total_assets := sum (series CTotalAssets df);
     total_users := nunique (ids df);
     top_10_users := nlargest 10 CRevenue df;
     top_20_assets := nlargest 20 CTotalAssets df |}.

(** Lines 86-145: the drill-down renders the fields of [user_data] and,
    line 120-123, the table's mean Net Profit Margin and the delta. *)
Record drilldown := mkdrilldown {
  user_data : row;
  avg_npm : option Q;
  delta_vs_avg : option Q
}.

Definition drill (user_data : row) (avg_npm : option Q) : drilldown :=
  {| user_data := user_data;
     avg_npm := avg_npm;
     delta_vs_avg :=
       option_map (fun a => NetProfitMargin user_data - a) avg_npm |}.

Inductive page :=
| OverviewPage (o : overview)
| UserPage (selected_user : string) (d : drilldown)
| IndexError.

(** Lines 32-87: the page for a loaded table and a selected view. *)
Definition render (df : table) (selected_user : string) : page :=
  if String.eqb selected_user "Overview" then OverviewPage (overview_of df)
  else
    match iloc0 (select_eq df selected_user) with
    | None => IndexError
    | Some user_data =>
        UserPage selected_user
          (drill user_data (mean (series CNetProfitMargin df)))
    end.

(** ** The loader, lines 13-15 and 23

    The uploaded file is a [BytesIO] with a file name, a read position
    and its content.  [load_data] is memoised by [@st.cache_data], which
    hashes such an argument by its name, its read position and its
    content: the result is stored under that key and a later call with
    the same key returns the stored table; a call that raises is not
    stored.  The parser [pd.read_excel] reads the content (it seeks to the
    start of the stream itself) and is a parameter of the section ([None]
    when it raises). *)
Record upload := mkupload {
  name : string;
  position : nat;
  content : list Byte.byte
}.

Definition bytes_eqb (a b : list Byte.byte) : bool :=
  if list_eq_dec Byte.byte_eq_dec a b then true else false.

Definition upload_eqb (a b : upload) : bool :=
  String.eqb (name a) (name b) && Nat.eqb (position a) (position b)
  && bytes_eqb (content a) (content b).

Definition cache := list (upload * table).

Section Loader.

Variable read_excel : list Byte.byte -> option table.

Fixpoint cache_lookup (file : upload) (c : cache) : option table :=
  match c with
  | [] => None
  | (k, t) :: c' => if upload_eqb k file then Some t else cache_lookup file c'
  end.

Definition load_data (c : cache) (file : upload) : option table * cache :=
  match cache_lookup file c with
  | Some t => (Some t, c)
  | None =>
      match read_excel (content file) with
      | Some t => (Some t, (file, t) :: c)
      | None => (None, c)
      end
  end.

(** The tables a process obtains for a sequence of uploads, starting from
    the cache [c]. *)
Fixpoint load_all (c : cache) (files : list upload)
  : list (option table) :=
  match files with
  | [] => []
  | f :: fs =>
      let (res, c') := load_data c f in res :: load_all c' fs
  end.

(** The cache a process holds after a sequence of uploads. *)
Fixpoint load_seq (c : cache) (files : list upload) : cache :=
  match files with
  | [] => c
  | f :: fs => load_seq (snd (load_data c f)) fs
  end.

(** [st.selectbox("Select a View", options)] (line 25): the option at the
    position [pick] the user chose among these same options in an earlier
    run; [None] when no choice was made or the options have changed since
    (Streamlit then resets the widget to its default position 0).  A
    position outside the options, which the widget cannot hold, also gives
    position 0; an empty list of options gives [None]. *)
Definition selectbox (options : list string) (pick : option nat)
  : option string :=
  match pick with
  | Some i =>
      match nth_error options i with
      | Some o => Some o
      | None => hd_error options
      end
  | None => hd_error options
  end.

(** What one run of the script shows (lines 18-33 and 85): the info
    message when no file is uploaded, the error of [pd.read_excel] when it
    raises, otherwise the page for the view picked in the select box.  A
    [None] from the select box is compared with "Overview" and with the
    identifiers, matches none of them, and [.iloc[0]] raises. *)
Inductive screen :=
| Info
| LoadFailed
| Shown (p : page).

Definition app (c : cache) (uploaded_file : option upload)
  (pick : option nat) : screen * cache :=
  match uploaded_file with
  | None => (Info, c)
  | Some file =>
      let (res, c') := load_data c file in
      match res with
      | None => (LoadFailed, c')
      | Some df =>
          match selectbox (user_list df) pick with
          | Some selected_user => (Shown (render df selected_user), c')
          | None => (Shown IndexError, c')
          end
      end
  end.

End Loader.

(** ** Sample data *)

Definition mk (id : string) (rev npm assets : Q) : row :=
  mkrow id rev 0 0 0 npm 0 0 assets 0 0 0 0 0 0 0 0 0.

Definition rowA := mk "A" 100 10 5.
Definition rowB := mk "B" 300 20 7.
Definition rowC := mk "C" 200 30 9.
Definition sample : table := [rowA; rowB; rowC].

(** The same two bytes uploaded under two file names. *)
Definition upload_a := mkupload "a.xlsx" 0 [Byte.x50; Byte.x4b].
Definition upload_b := mkupload "b.xlsx" 0 [Byte.x50; Byte.x4b].

Example sample_top2 :
  nlargest 2 CRevenue sample = Some [(1%nat, rowB); (2%nat, rowC)].
Proof. reflexivity. Qed.
Example sample_user_list : user_list sample = ["Overview"; "A"; "B"; "C"]%string.
Proof. reflexivity. Qed.
Example sample_render_B :
  render sample "B" = UserPage "B" (drill rowB (mean (series CNetProfitMargin sample))).
Proof. reflexivity. Qed.

(** ** Facts about the list operations *)

Lemma In_firstn_any {A} n (l : list A) x : In x (firstn n l) -> In x l.
Proof.
  revert l; induction n as [|n IH]; intros [|y l]; simpl; try tauto.
  intros [->|H]; [now left | right; now apply IH].
Qed.

Lemma StronglySorted_firstn {A} (R : A -> A -> Prop) n l :
  StronglySorted R l -> StronglySorted R (firstn n l).
Proof.
  revert l; induction n as [|n IH]; intros [|x l] H; simpl; try constructor;
    apply StronglySorted_inv in H as [Hl Hx]; [now apply IH|].
  rewrite Forall_forall in *; intros y Hy; apply Hx.
  now apply In_firstn_any in Hy.
Qed.

Lemma StronglySorted_nth {A} (R : A -> A -> Prop) l i j d :
  StronglySorted R l -> (i < j < length l)%nat -> R (nth i l d) (nth j l d).
Proof.
  revert i j; induction l as [|x l IH]; intros i j H Hij; simpl in *; [lia|].
  apply StronglySorted_inv in H as [Hl Hx].
  destruct i as [|i], j as [|j]; try lia.
  - rewrite Forall_forall in Hx; apply Hx, nth_In; lia.
  - apply IH; auto; lia.
Qed.

Lemma indexed_from_sorted s (l : list row) :
  StronglySorted (fun a b : nat * row => (fst a < fst b)%nat)
    (combine (seq s (length l)) l).
Proof.
  revert s; induction l as [|x l IH]; intros s; simpl; constructor; auto.
  apply Forall_forall; intros [k r] Hin; simpl.
  apply in_combine_l, in_seq in Hin; lia.
Qed.

Lemma indexed_from_nth s (l : list row) k r :
  In (k, r) (combine (seq s (length l)) l) ->
  (s <= k)%nat /\ nth_error l (k - s) = Some r.
Proof.
  revert s; induction l as [|x l IH]; intros s Hin; simpl in *; [tauto|].
  destruct Hin as [Heq|Hin].
  - injection Heq as <- <-; split; [lia|]; now replace (s - s)%nat with 0%nat by lia.
  - apply IH in Hin as [Hle Hn]; split; [lia|].
    replace (k - s)%nat with (S (k - S s)) by lia; exact Hn.
Qed.

Section NLargest.

Variable c : column.

(** [a] comes before [b] in the output of [nlargest]: a larger value, or
    an equal value and a smaller index. *)
Definition before (a b : nat * row) : Prop :=
  get c (snd b) < get c (snd a) \/
  (get c (snd a) == get c (snd b) /\ (fst a < fst b)%nat).

Lemma before_trans a b d : before a b -> before b d -> before a d.
Proof.
  unfold before; intros [H1|[H1 H1']] [H2|[H2 H2']].
  - left; lra.
  - left; lra.
  - left; lra.
  - right; split; [lra | lia].
Qed.

Lemma insert_desc_perm x l : Permutation (insert_desc c x l) (x :: l).
Proof.
  induction l as [|y l IH]; simpl; [auto|].
  destruct (Qle_bool _ _); [auto|].
  rewrite IH; apply perm_swap.
Qed.

Lemma sort_desc_perm l : Permutation (sort_desc c l) l.
Proof.
  induction l as [|x l IH]; simpl; [auto|].
  rewrite insert_desc_perm; auto.
Qed.

Lemma insert_desc_sorted x l :
  StronglySorted before l -> Forall (fun y => (fst x < fst y)%nat) l ->
  StronglySorted before (insert_desc c x l).
Proof.
  induction l as [|y l IH]; intros Hs Hf; simpl.
  - repeat constructor.
  - apply StronglySorted_inv in Hs as [Hl Hy].
    inversion Hf as [|? ? Hxy Hf']; subst.
    destruct (Qle_bool _ _) eqn:Hle.
    + apply Qle_bool_iff in Hle.
      assert (Hb : before x y).
      { unfold before. destruct (Qlt_le_dec (get c (snd y)) (get c (snd x))).
        - now left.
        - right; split; [lra | exact Hxy]. }
      constructor; [constructor; auto|].
      constructor; [exact Hb|].
      rewrite Forall_forall in *; intros z Hz; eapply before_trans; eauto.
    + assert (Hlt : get c (snd x) < get c (snd y)).
      { apply Qnot_le_lt; intro H; apply Qle_bool_iff in H; congruence. }
      constructor; [now apply IH|].
      apply Forall_forall; intros z Hz.
      apply (Permutation_in _ (insert_desc_perm x l)) in Hz as [<-|Hz].
      * now left.
      * now rewrite Forall_forall in Hy; apply Hy.
Qed.

Lemma sort_desc_sorted l :
  StronglySorted (fun a b : nat * row => (fst a < fst b)%nat) l ->
  StronglySorted before (sort_desc c l).
Proof.
  induction l as [|x l IH]; intros H; simpl; [constructor|].
  apply StronglySorted_inv in H as [Hl Hx].
  apply insert_desc_sorted; [now apply IH|].
  rewrite Forall_forall in *; intros y Hy; apply Hx.
  now apply (Permutation_in _ (sort_desc_perm l)).
Qed.

End NLargest.

Lemma length_indexed df : length (indexed df) = length df.
Proof.
  unfold indexed; rewrite length_combine, length_seq; lia.
Qed.

Lemma existsb_eqb_In x seen : existsb (String.eqb x) seen = true <-> In x seen.
Proof.
  rewrite existsb_exists; split.
  - intros [y [Hy Heq]]; apply String.eqb_eq in Heq; now subst.
  - intros H; exists x; split; [exact H | apply String.eqb_refl].
Qed.

Lemma unique_go_spec l : forall seen,
  (forall x, In x (unique_go seen l) <-> In x l /\ ~ In x seen) /\
  NoDup (unique_go seen l).
Proof.
  induction l as [|y l IH]; intros seen; simpl.
  - split; [tauto | constructor].
  - destruct (existsb (String.eqb y) seen) eqn:Hy.
    + apply existsb_eqb_In in Hy.
      destruct (IH seen) as [Hin Hnd]; split; [|exact Hnd].
      intros x; rewrite Hin; split; [tauto|].
      intros [[<-|Hx] Hn]; [contradiction | tauto].
    + assert (Hny : ~ In y seen)
        by (intro H; apply existsb_eqb_In in H; congruence).
      destruct (IH (y :: seen)) as [Hin Hnd]; split.
      * intros x; simpl; rewrite Hin; simpl; split.
        -- intros [<-|[Hx Hn]]; [tauto|]. split; [tauto|]. tauto.
        -- intros [[<-|Hx] Hn]; [now left|].
           destruct (String.eqb_spec y x) as [<-|Hne]; [now left|].
           right; split; [exact Hx|]. intros [H|H]; [congruence | tauto].
      * constructor; [|exact Hnd].
        rewrite Hin; simpl; tauto.
Qed.

Lemma unique_In l x : In x (unique l) <-> In x l.
Proof.
  unfold unique; destruct (unique_go_spec l []) as [H _].
  rewrite H; simpl; tauto.
Qed.

Lemma unique_NoDup l : NoDup (unique l).
Proof. apply unique_go_spec. Qed.

Lemma insert_str_perm x l : Permutation (insert_str x l) (x :: l).
Proof.
  induction l as [|y l IH]; simpl; [auto|].
  destruct (String.leb x y); [auto|].
  rewrite IH; apply perm_swap.
Qed.

Lemma sorted_perm l : Permutation (sorted l) l.
Proof.
  induction l as [|x l IH]; simpl; [auto|].
  rewrite insert_str_perm; auto.
Qed.

Lemma insert_str_Sorted x l :
  Sorted (fun a b => String.leb a b = true) l ->
  Sorted (fun a b => String.leb a b = true) (insert_str x l).
Proof.
  induction l as [|y l IH]; intros H; simpl; [repeat constructor|].
  destruct (String.leb x y) eqn:Hxy; [constructor; [exact H | now constructor]|].
  assert (Hyx : String.leb y x = true)
    by (destruct (String.leb_total x y); congruence).
  apply Sorted_inv in H as [Hl Hhd].
  constructor; [now apply IH|].
  destruct l as [|z l]; simpl; [now constructor|].
  destruct (String.leb x z); constructor; [exact Hyx|].
  now apply HdRel_inv in Hhd.
Qed.

Lemma sorted_Sorted l : Sorted (fun a b => String.leb a b = true) (sorted l).
Proof.
  induction l as [|x l IH]; simpl; [constructor|].
  now apply insert_str_Sorted.
Qed.

Lemma leb_neq_ltb a b :
  String.leb a b = true -> a <> b -> String.ltb a b = true.
Proof.
  unfold String.leb, String.ltb; intros H Hne.
  destruct (String.compare a b) eqn:Hc; try reflexivity; try discriminate.
  apply String.compare_eq_iff in Hc; contradiction.
Qed.

Lemma Sorted_leb_ltb l :
  Sorted (fun a b => String.leb a b = true) l -> NoDup l ->
  Sorted (fun a b => String.ltb a b = true) l.
Proof.
  induction 1 as [|a l Hl IH Hhd]; intros Hnd; constructor.
  - apply IH; now inversion Hnd.
  - inversion Hnd as [|? ? Hna _]; subst.
    destruct Hhd as [|b l' Hab]; constructor.
    apply leb_neq_ltb; [exact Hab|].
    intros <-; apply Hna; now left.
Qed.

(** The first row of [select_eq] is the first row with that identifier. *)
Lemma iloc0_select_find v (l : table) : forall s,
  iloc0 (filter (fun ir => String.eqb (UserID (snd ir)) v)
           (combine (seq s (length l)) l))
  = find (fun r => String.eqb (UserID r) v) l.
Proof.
  induction l as [|x l IH]; intros s; simpl; [reflexivity|].
  destruct (String.eqb (UserID x) v); [reflexivity | apply IH].
Qed.

Lemma iloc0_select_eq df v :
  iloc0 (select_eq df v) = find (fun r => String.eqb (UserID r) v) df.
Proof. apply iloc0_select_find. Qed.

Lemma find_some_row v (df : table) r :
  find (fun r => String.eqb (UserID r) v) df = Some r ->
  In r df /\ UserID r = v.
Proof.
  intros H; apply find_some in H as [Hin Heq].
  now apply String.eqb_eq in Heq.
Qed.

Lemma find_none_row v (df : table) r :
  find (fun r => String.eqb (UserID r) v) df = None -> In r df ->
  UserID r <> v.
Proof.
  intros H Hin Heq; apply (find_none _ _ H) in Hin.
  rewrite Heq, String.eqb_refl in Hin; discriminate.
Qed.

Lemma render_user_page df sel s d :
  render df sel = UserPage s d ->
  sel <> "Overview"%string /\ s = sel /\
  find (fun r => String.eqb (UserID r) sel) df = Some (user_data d) /\
  d = drill (user_data d) (mean (series CNetProfitMargin df)).
Proof.
  unfold render; destruct (String.eqb_spec sel "Overview") as [_|Hne];
    [discriminate|].
  rewrite iloc0_select_eq.
  destruct (find _ df) as [r|]; [|discriminate].
  intros H; injection H as <- <-; simpl; auto.
Qed.

Lemma user_list_tail_In df x :
  In x (sorted (unique (ids df))) <-> exists r, In r df /\ UserID r = x.
Proof.
  split.
  - intros H; apply (Permutation_in _ (sorted_perm _)) in H.
    rewrite unique_In in H.
    unfold ids in H; apply in_map_iff in H as [r [Hr Hin]]; eauto.
  - intros [r [Hin Hr]]; apply (Permutation_in _ (Permutation_sym (sorted_perm _))).
    rewrite unique_In; unfold ids; apply in_map_iff; eauto.
Qed.

Lemma find_exists_row v (df : table) :
  (exists r, In r df /\ UserID r = v) ->
  exists r, find (fun r => String.eqb (UserID r) v) df = Some r.
Proof.
  intros [r [Hin Hr]].
  destruct (find _ df) as [r'|] eqn:Hf; [eauto|].
  exfalso; exact (find_none_row v df r Hf Hin Hr).
Qed.

(** The spec's sum of a column: each row's value added to the rest. *)
Fixpoint column_total (c : column) (df : table) : Q :=
  match df with
  | [] => 0
  | r :: rs => get c r + column_total c rs
  end.

Lemma fold_left_Qplus xs a :
  fold_left Qplus xs a == a + fold_right Qplus 0 xs.
Proof.
  revert a; induction xs as [|x xs IH]; intros a; simpl; [ring|].
  rewrite IH; ring.
Qed.

Lemma sum_series c df : sum (series c df) == column_total c df.
Proof.
  unfold sum; rewrite fold_left_Qplus.
  assert (H : fold_right Qplus 0 (series c df) == column_total c df).
  { induction df as [|r df IH]; simpl; [reflexivity|].
    now rewrite IH. }
  rewrite H; ring.
Qed.


Lemma StronglySorted_weaken {A} (R R' : A -> A -> Prop) l :
  (forall a b, R a b -> R' a b) -> StronglySorted R l -> StronglySorted R' l.
Proof.
  intros HR; induction 1 as [|x l Hl IH Hx]; constructor; [exact IH|].
  rewrite Forall_forall in *; intros y Hy; apply HR, Hx, Hy.
Qed.

Lemma before_desc_by c a b : before c a b -> desc_by c a b.
Proof. unfold before, desc_by; intros [H|[H _]]; lra. Qed.

Lemma insert_desc_Sorted c x l :
  Sorted (desc_by c) l -> Sorted (desc_by c) (insert_desc c x l).
Proof.
  induction l as [|y l IH]; intros H; simpl; [repeat constructor|].
  destruct (Qle_bool (get c (snd y)) (get c (snd x))) eqn:Hxy.
  - apply Qle_bool_iff in Hxy.
    constructor; [exact H | constructor; exact Hxy].
  - assert (Hyx : desc_by c y x).
    { unfold desc_by; apply Qlt_le_weak, Qnot_le_lt; intro H';
        apply Qle_bool_iff in H'; congruence. }
    apply Sorted_inv in H as [Hl Hhd].
    constructor; [now apply IH|].
    destruct l as [|z l]; simpl; [now constructor|].
    destruct (Qle_bool (get c (snd z)) (get c (snd x))); constructor; [exact Hyx|].
    now apply HdRel_inv in Hhd.
Qed.

(** The stable sort [sort_desc] is one of the sorts [sort_values_ok]
    admits. *)
Lemma sort_desc_ok : sort_values_ok sort_desc.
Proof.
  intros c l; split; [apply sort_desc_perm|].
  induction l as [|x l IH]; simpl; [constructor|].
  now apply insert_desc_Sorted.
Qed.

Lemma nlargest_nil n c : nlargest n c [] = None.
Proof. reflexivity. Qed.

Lemma nlargest_some n c df :
  df <> [] -> exists out, nlargest n c df = Some out.
Proof.
  intros Hne; destruct df as [|r rs]; [congruence|].
  unfold nlargest; destruct (Nat.leb _ n); eauto.
Qed.

(** Whatever its branch, [nlargest] returns the first [n] rows of a
    reordering of the labelled table in descending order; when [n] is below
    the row count equal values keep their index order. *)
Lemma nlargest_spec :
  sort_values_ok sort_values_desc -> forall n c df out,
  nlargest n c df = Some out ->
  df <> [] /\
  exists L, out = firstn n L /\ Permutation L (indexed df) /\
    StronglySorted (desc_by c) L /\
    ((n < length df)%nat -> StronglySorted (before c) L).
Proof.
  intros Hsv n c df out H.
  destruct df as [|r rs]; [discriminate|].
  split; [discriminate|].
  unfold nlargest in H.
  destruct (Nat.leb (length (r :: rs)) n) eqn:Hle; injection H as <-.
  - apply Nat.leb_le in Hle.
    destruct (Hsv c (indexed (r :: rs))) as [Hp Hs].
    exists (sort_values_desc c (indexed (r :: rs))); split; [reflexivity|].
    split; [exact Hp|]; split; [|intros Hlt; lia].
    apply Sorted_StronglySorted; [|exact Hs].
    intros x y z; unfold desc_by; lra.
  - pose proof (sort_desc_sorted c _ (indexed_from_sorted 0 (r :: rs))) as Hb.
    exists (sort_desc c (indexed (r :: rs))); split; [reflexivity|].
    split; [apply sort_desc_perm|]; split; [|intros _; exact Hb].
    exact (StronglySorted_weaken _ _ _ (before_desc_by c) Hb).
Qed.

Lemma StronglySorted_app_rel {A} (R : A -> A -> Prop) l1 l2 x y :
  StronglySorted R (l1 ++ l2) -> In x l1 -> In y l2 -> R x y.
Proof.
  induction l1 as [|z l1 IH]; intros H Hx Hy; [destruct Hx|].
  apply StronglySorted_inv in H as [Hl Hz].
  destruct Hx as [<-|Hx]; [|now apply IH].
  rewrite Forall_forall in Hz; apply Hz, in_or_app; now right.
Qed.

Lemma nth_error_in_combine s (l : list row) k r :
  nth_error l k = Some r -> In (s + k, r)%nat (combine (seq s (length l)) l).
Proof.
  revert s k; induction l as [|x l IH]; intros s [|k] H; simpl in *;
    try discriminate.
  - injection H as ->; left; f_equal; lia.
  - right; replace (s + S k)%nat with (S s + k)%nat by lia; now apply IH.
Qed.

Lemma map_snd_combine_seq s (l : list row) :
  map snd (combine (seq s (length l)) l) = l.
Proof.
  revert s; induction l as [|x l IH]; intros s; simpl; [reflexivity|].
  now rewrite IH.
Qed.

Lemma map_fst_combine_seq s (l : list row) :
  map fst (combine (seq s (length l)) l) = seq s (length l).
Proof.
  revert s; induction l as [|x l IH]; intros s; simpl; [reflexivity|].
  now rewrite IH.
Qed.

Lemma NoDup_firstn_any {A} n (l : list A) : NoDup l -> NoDup (firstn n l).
Proof.
  revert l; induction n as [|n IH]; intros [|x l] H; simpl; try constructor.
  - inversion H as [|? ? Hx Hl]; subst.
    intros Hin; apply Hx; now apply In_firstn_any in Hin.
  - apply IH; now inversion H.
Qed.

Lemma mean_series_cons c r rs :
  mean (series c (r :: rs))
  = Some (sum (series c (r :: rs)) / inject_Z (Z.of_nat (length (r :: rs)))).
Proof.
  unfold mean, series; simpl.
  now rewrite length_map.
Qed.

Lemma find_first_match (pre : table) (r : row) (post : table) sel :
  Forall (fun x => UserID x <> sel) pre -> UserID r = sel ->
  find (fun x => String.eqb (UserID x) sel) (pre ++ r :: post) = Some r.
Proof.
  induction 1 as [|x pre Hx Hpre IH]; intros Hr; simpl.
  - now rewrite Hr, String.eqb_refl.
  - destruct (String.eqb_spec (UserID x) sel); [contradiction|].
    now apply IH.
Qed.

Lemma selectbox_In options pick :
  options <> [] -> exists o, selectbox options pick = Some o /\ In o options.
Proof.
  intros Hne; destruct options as [|o0 os]; [congruence|].
  destruct pick as [i|]; simpl.
  - destruct (nth_error (o0 :: os) i) as [o|] eqn:Hn.
    + exists o; split; [reflexivity|]. exact (nth_error_In _ _ Hn).
    + exists o0; split; [reflexivity | now left].
  - exists o0; split; [reflexivity | now left].
Qed.

Lemma user_list_nil : user_list [] = ["Overview"%string].
Proof. reflexivity. Qed.

(** ** The memo cache *)

Lemma bytes_eqb_eq a b : bytes_eqb a b = true <-> a = b.
Proof.
  unfold bytes_eqb; destruct (list_eq_dec Byte.byte_eq_dec a b); split; congruence.
Qed.

Lemma upload_eqb_eq a b : upload_eqb a b = true <-> a = b.
Proof.
  destruct a as [na pa ca], b as [nb pb cb]; unfold upload_eqb; simpl.
  rewrite !andb_true_iff, String.eqb_eq, Nat.eqb_eq, bytes_eqb_eq.
  split; [intros [[-> ->] ->]; reflexivity|].
  intros H; injection H as -> -> ->; auto.
Qed.

Lemma upload_eq_dec (a b : upload) : {a = b} + {a <> b}.
Proof.
  destruct (upload_eqb a b) eqn:E; [left; now apply upload_eqb_eq|].
  right; intros H; apply upload_eqb_eq in H; congruence.
Qed.

(** Invariant of the memo cache: every stored table is what the parser
    returns for the content of the stored upload. *)
Definition cache_ok (read_excel : list Byte.byte -> option table) (c : cache)
  : Prop :=
  forall f t, cache_lookup f c = Some t -> read_excel (content f) = Some t.

Lemma cache_ok_nil read_excel : cache_ok read_excel [].
Proof. intros f t H; discriminate H. Qed.

Lemma load_data_ok read_excel c f :
  cache_ok read_excel c ->
  fst (load_data read_excel c f) = read_excel (content f) /\
  cache_ok read_excel (snd (load_data read_excel c f)).
Proof.
  intros Hc; unfold load_data.
  destruct (cache_lookup f c) as [t|] eqn:Hl.
  - simpl; split; [symmetry; now apply Hc | exact Hc].
  - destruct (read_excel (content f)) as [t|] eqn:Hr; simpl; split; auto.
    intros g u; simpl.
    destruct (upload_eqb f g) eqn:E.
    + apply upload_eqb_eq in E; subst g; intros H; injection H as <-; exact Hr.
    + apply Hc.
Qed.

Lemma load_all_ok read_excel files : forall c,
  cache_ok read_excel c ->
  load_all read_excel c files = map (fun f => read_excel (content f)) files.
Proof.
  induction files as [|f fs IH]; intros c Hc; simpl; [reflexivity|].
  destruct (load_data_ok read_excel c f Hc) as [H1 H2].
  destruct (load_data read_excel c f) as [res c'] eqn:Hld; simpl in *.
  rewrite H1; f_equal; now apply IH.
Qed.

Lemma cache_lookup_none_iff f (c : cache) :
  cache_lookup f c = None <-> ~ In f (map fst c).
Proof.
  induction c as [|[k t] c IH]; simpl; [tauto|].
  destruct (upload_eqb k f) eqn:E.
  - apply upload_eqb_eq in E; subst k.
    split; [discriminate | intros H; exfalso; apply H; now left].
  - assert (Hne : k <> f) by (intros H; apply upload_eqb_eq in H; congruence).
    rewrite IH; split.
    + intros H [H'|H']; [congruence | tauto].
    + tauto.
Qed.

Lemma load_seq_inv (read_excel : list Byte.byte -> option table) files :
  forall c, NoDup (map fst c) -> cache_ok read_excel c ->
  NoDup (map fst (load_seq read_excel c files)) /\
  cache_ok read_excel (load_seq read_excel c files) /\
  (forall f, In f (map fst (load_seq read_excel c files)) <->
     In f (map fst c) \/ (In f files /\ read_excel (content f) <> None)).
Proof.
  induction files as [|f fs IH]; intros c Hnd Hc; simpl.
  - split; [exact Hnd|]; split; [exact Hc|]. intros g; simpl; tauto.
  - destruct (load_data_ok read_excel c f Hc) as [_ Hc'].
    revert Hc'; unfold load_data.
    destruct (cache_lookup f c) as [t|] eqn:Hl; simpl; intros Hc'.
    + destruct (IH c Hnd Hc) as [H1 [H2 H3]]; split; [exact H1|]; split; [exact H2|].
      intros g; rewrite H3; split; [tauto|].
      intros [H|[[<-|H] Hok]]; [tauto| |tauto].
      left; destruct (in_dec upload_eq_dec f (map fst c)) as [Hin|Hnin];
        [exact Hin|].
      apply cache_lookup_none_iff in Hnin; congruence.
    + apply cache_lookup_none_iff in Hl.
      destruct (read_excel (content f)) as [t|] eqn:Hr; simpl in *.
      * destruct (IH ((f, t) :: c)) as [H1 [H2 H3]];
          [simpl; now constructor | exact Hc' |].
        split; [exact H1|]; split; [exact H2|].
        intros g; rewrite H3; simpl; split.
        -- intros [[<-|H]|[H Hok]]; [right; split; [now left | congruence]|tauto|tauto].
        -- intros [H|[[<-|H] Hok]]; tauto.
      * destruct (IH c Hnd Hc) as [H1 [H2 H3]]; split; [exact H1|]; split; [exact H2|].
        intros g; rewrite H3; split; [tauto|].
        intros [H|[[<-|H] Hok]]; [tauto|congruence|tauto].
Qed.


(** ** Claims *)

(** C1 (amended): on a table with at least one row, the top-N selection
    [df.nlargest(n, c)] (used with n = 10 on Revenue and n = 20 on
    TotalAssets) returns min(n, row count) rows, each a row of the table
    with its index, in descending order of column [c]; when [n] is below
    the row count, rows with equal values keep their original order (when
    [n] is at least the row count the order of equal values is left to
    NumPy's sort); on a table with no rows it raises [TypeError]; on the
    table A = 100, B = 300, C = 200 the top 2 by Revenue are B then C. *)
Theorem C1_nlargest_top_n :
  sort_values_ok sort_values_desc ->
  forall (n : nat) (c : column) (df : table), df <> [] ->
  exists out, nlargest n c df = Some out /\
    length out = Nat.min n (length df) /\
    (forall k r, In (k, r) out -> nth_error df k = Some r) /\
    (forall i j d, (i < j < length out)%nat ->
       get c (snd (nth j out d)) <= get c (snd (nth i out d))) /\
    ((n < length df)%nat -> forall i j d, (i < j < length out)%nat ->
       get c (snd (nth i out d)) == get c (snd (nth j out d)) ->
       (fst (nth i out d) < fst (nth j out d))%nat) /\
    nlargest n c [] = None /\
    option_map (map (fun ir => UserID (snd ir))) (nlargest 2 CRevenue sample)
    = Some ["B"; "C"]%string.
Proof.
  intros Hsv n c df Hne.
  destruct (nlargest_some n c df Hne) as [out Hout].
  destruct (nlargest_spec Hsv n c df out Hout) as [_ [L [-> [Hp [Hs Hb]]]]].
  exists (firstn n L); split; [exact Hout|].
  split; [|split; [|split; [|split; [|split]]]].
  - rewrite length_firstn, (Permutation_length Hp), length_indexed; reflexivity.
  - intros k r Hin; apply In_firstn_any in Hin.
    apply (Permutation_in _ Hp) in Hin.
    apply indexed_from_nth in Hin as [_ Hk].
    now replace (k - 0)%nat with k in Hk by lia.
  - intros i j d Hij.
    exact (StronglySorted_nth _ _ i j d (StronglySorted_firstn _ n _ Hs) Hij).
  - intros Hlt i j d Hij Heq.
    destruct (StronglySorted_nth _ _ i j d (StronglySorted_firstn _ n _ (Hb Hlt)) Hij)
      as [H|[_ H]]; [lra | exact H].
  - reflexivity.
  - reflexivity.
Qed.

(** C2 (amended): for every option [sel] of the select box: on a table
    with rows, choosing "Overview" renders the whole-table overview with
    both top-N charts; choosing any other option renders the drill-down of
    a row of the table whose UserID equals [sel]; a table with no rows
    offers only "Overview", and its overview has no top-N chart, since
    [df.nlargest] raises at line 61. *)
Theorem C2_render_selection : forall (df : table) (sel : string),
  In sel (user_list df) ->
  (df <> [] -> sel = "Overview"%string ->
   render df sel = OverviewPage (overview_of df) /\
   exists t10 t20, top_10_users (overview_of df) = Some t10 /\
     top_20_assets (overview_of df) = Some t20) /\
  (sel <> "Overview"%string ->
   exists r, In r df /\ UserID r = sel /\
     render df sel = UserPage sel (drill r (mean (series CNetProfitMargin df)))) /\
  (df = [] -> sel = "Overview"%string /\
   render df sel = OverviewPage (overview_of df) /\
   top_10_users (overview_of df) = None /\ top_20_assets (overview_of df) = None).
Proof.
  intros df sel Hsel; split; [|split].
  - intros Hne ->; split; [reflexivity|].
    destruct (nlargest_some 10 CRevenue df Hne) as [t10 H10].
    destruct (nlargest_some 20 CTotalAssets df Hne) as [t20 H20].
    exists t10, t20; split; [exact H10 | exact H20].
  - intros Hne.
    destruct Hsel as [Heq|Hin]; [congruence|].
    apply user_list_tail_In, find_exists_row in Hin as [r Hf].
    destruct (find_some_row _ _ _ Hf) as [Hr Hid].
    exists r; split; [exact Hr|]; split; [exact Hid|].
    unfold render; destruct (String.eqb_spec sel "Overview"); [contradiction|].
    now rewrite iloc0_select_eq, Hf.
  - intros ->; rewrite user_list_nil in Hsel.
    destruct Hsel as [<-|[]]; split; [reflexivity|].
    split; [reflexivity|]; split; reflexivity.
Qed.


(** C4 (amended): for a selected identifier other than "Overview", the
    drill-down page is built from the first row carrying that identifier
    in table order; the later rows with the same identifier enter the
    page only through the mean NetProfitMargin of the whole table (the
    Company Average metric and its delta). *)
Theorem C4_first_match : forall (pre : table) (r : row) (post : table)
  (sel : string),
  sel <> "Overview"%string ->
  Forall (fun x => UserID x <> sel) pre -> UserID r = sel ->
  render (pre ++ r :: post) sel
  = UserPage sel (drill r (mean (series CNetProfitMargin (pre ++ r :: post)))).
Proof.
  intros pre r post sel Hne Hpre Hr.
  unfold render; destruct (String.eqb_spec sel "Overview"); [contradiction|].
  now rewrite iloc0_select_eq, find_first_match.
Qed.

(** C5: every option of the select box other than "Overview" is a UserID
    of the table, so the lookup [df[df["UserID"] == sel].iloc[0]] finds a
    row and the page is never an [IndexError]. *)
Theorem C5_no_index_error : forall (df : table) (sel : string),
  In sel (user_list df) -> sel <> "Overview"%string ->
  iloc0 (select_eq df sel) <> None /\ render df sel <> IndexError.
Proof.
  intros df sel Hsel Hne.
  destruct Hsel as [Heq|Hin]; [congruence|].
  apply user_list_tail_In, find_exists_row in Hin as [r Hf].
  rewrite iloc0_select_eq, Hf; split; [discriminate|].
  unfold render; destruct (String.eqb_spec sel "Overview"); [contradiction|].
  rewrite iloc0_select_eq, Hf; discriminate.
Qed.

(** C6: in a process that starts with an empty cache, two uploads with the
    same bytes (under the same or another file name, whichever of them is
    answered from the cache) give the same result, the parser's table for
    those bytes; every aggregate, being computed by [render] from that
    table, is then the same too. *)
Theorem C6_load_deterministic :
  forall (read_excel : list Byte.byte -> option table)
         (files : list upload) (i j : nat) (fi fj : upload),
  nth_error files i = Some fi -> nth_error files j = Some fj ->
  content fi = content fj ->
  nth_error (load_all read_excel [] files) i = Some (read_excel (content fi)) /\
  nth_error (load_all read_excel [] files) j = Some (read_excel (content fi)) /\
  (forall sel,
     option_map (option_map (fun df => render df sel))
       (nth_error (load_all read_excel [] files) i)
     = option_map (option_map (fun df => render df sel))
       (nth_error (load_all read_excel [] files) j)).
Proof.
  intros read_excel files i j fi fj Hi Hj Hc.
  rewrite load_all_ok by apply cache_ok_nil.
  rewrite !nth_error_map, Hi, Hj; simpl; rewrite Hc; auto.
Qed.

(** C7: the Total Users metric ([df['UserID'].nunique()]) is the number
    of distinct UserID values: the length of any duplicate-free list
    holding exactly the identifiers of the table. *)
Theorem C7_total_users : forall (df : table) (l : list string),
  NoDup l -> (forall x, In x l <-> In x (ids df)) ->
  total_users (overview_of df) = length l.
Proof.
  intros df l Hnd Hin; simpl; unfold nunique.
  apply Permutation_length, NoDup_Permutation; [apply unique_NoDup | exact Hnd|].
  intros x; rewrite unique_In, Hin; reflexivity.
Qed.

(** C8: the options of the select box are "Overview" followed by the
    table's UserID values in strictly ascending order, each once. *)
Theorem C8_user_list_shape : forall (df : table),
  exists l, user_list df = "Overview"%string :: l /\
    Sorted (fun a b => String.ltb a b = true) l /\ NoDup l /\
    (forall x, In x l <-> In x (ids df)).
Proof.
  intros df; exists (sorted (unique (ids df))); split; [reflexivity|].
  assert (Hnd : NoDup (sorted (unique (ids df)))).
  { apply (Permutation_NoDup (Permutation_sym (sorted_perm _))), unique_NoDup. }
  split; [apply Sorted_leb_ltb; [apply sorted_Sorted | exact Hnd]|].
  split; [exact Hnd|].
  intros x; split; intros H.
  - apply (Permutation_in _ (sorted_perm _)) in H; now rewrite unique_In in H.
  - apply (Permutation_in _ (Permutation_sym (sorted_perm _))).
    now rewrite unique_In.
Qed.

(** C9: selecting "Overview" always renders the overview, and no
    drill-down page ever shows a row whose UserID is "Overview": such a
    row is only seen through the aggregates. *)
Theorem C9_overview_row_unreachable : forall (df : table),
  render df "Overview" = OverviewPage (overview_of df) /\
  (forall sel s d, render df sel = UserPage s d ->
     UserID (user_data d) <> "Overview"%string).
Proof.
  intros df; split; [reflexivity|].
  intros sel s d H.
  apply render_user_page in H as [Hne [_ [Hf _]]].
  apply find_some_row in Hf as [_ ->]; exact Hne.
Qed.

(** C10: on a drill-down page the delta beside the Company Average Net
    Profit Margin is the selected row's NetProfitMargin minus the mean of
    NetProfitMargin over all rows of the table, the selected row among
    them. *)
Theorem C10_delta_vs_avg : forall (df : table) (sel s : string) (d : drilldown),
  render df sel = UserPage s d ->
  In (user_data d) df /\
  exists m, avg_npm d = Some m /\
    m == column_total CNetProfitMargin df / inject_Z (Z.of_nat (length df)) /\
    delta_vs_avg d = Some (NetProfitMargin (user_data d) - m).
Proof.
  intros df sel s d H.
  apply render_user_page in H as [_ [_ [Hf Hd]]].
  apply find_some_row in Hf as [Hin _]; split; [exact Hin|].
  rewrite Hd; simpl.
  destruct df as [|r rs]; [destruct Hin|].
  rewrite mean_series_cons.
  eexists; split; [reflexivity|]; split; [|reflexivity].
  now rewrite sum_series.
Qed.

(** ** Further properties of the page *)

(** X1: [df[df["UserID"] == sel].iloc[0]] raises exactly when [sel] is not
    "Overview" and no row of the table carries the identifier [sel]. *)
Theorem X1_render_index_error : forall (df : table) (sel : string),
  render df sel = IndexError <->
  sel <> "Overview"%string /\ (forall r, In r df -> UserID r <> sel).
Proof.
  intros df sel; unfold render.
  destruct (String.eqb_spec sel "Overview") as [->|Hne].
  - split; [discriminate | intros [H _]; now contradiction H].
  - rewrite iloc0_select_eq.
    destruct (find _ df) as [r|] eqn:Hf; split.
    + discriminate.
    + intros [_ Hall]; apply find_some_row in Hf as [Hin Hid].
      now contradiction (Hall r Hin).
    + intros _; split; [exact Hne|]. intros r Hin; exact (find_none_row _ _ _ Hf Hin).
    + reflexivity.
Qed.

(** X2: [nlargest] keeps the largest rows: a row of the table left out of
    the top-N selection is not larger, in the chosen column, than any row
    that was selected. *)
Theorem X2_nlargest_keeps_largest :
  sort_values_ok sort_values_desc ->
  forall (n : nat) (c : column) (df : table) (out : list (nat * row))
    (k : nat) (r : row),
  nlargest n c df = Some out ->
  nth_error df k = Some r -> ~ In k (map fst out) ->
  forall p, In p out -> get c r <= get c (snd p).
Proof.
  intros Hsv n c df out k r Hout Hk Hnot p Hp.
  destruct (nlargest_spec Hsv n c df out Hout) as [_ [L [-> [HL [Hs _]]]]].
  assert (Hin : In (k, r) L).
  { apply (Permutation_in _ (Permutation_sym HL)).
    exact (nth_error_in_combine 0 df k r Hk : In (k, r) (indexed df)). }
  rewrite <- (firstn_skipn n L) in Hs, Hin.
  apply in_app_or in Hin as [Hin|Hin].
  - exfalso; apply Hnot; apply (in_map fst) in Hin; exact Hin.
  - exact (StronglySorted_app_rel _ _ _ _ _ Hs Hp Hin).
Qed.

(** X4: when the table has rows, but at most N of them, the top-N
    selection shows every row of the table (each once, reordered). *)
Theorem X4_nlargest_all_rows :
  sort_values_ok sort_values_desc ->
  forall (n : nat) (c : column) (df : table),
  df <> [] -> (length df <= n)%nat ->
  exists out, nlargest n c df = Some out /\ Permutation (map snd out) df.
Proof.
  intros Hsv n c df Hne Hn.
  destruct (nlargest_some n c df Hne) as [out Hout].
  exists out; split; [exact Hout|].
  destruct (nlargest_spec Hsv n c df out Hout) as [_ [L [-> [HL _]]]].
  rewrite firstn_all2.
  - rewrite (Permutation_map snd HL).
    unfold indexed; now rewrite map_snd_combine_seq.
  - rewrite (Permutation_length HL), length_indexed; exact Hn.
Qed.

(** X5: no row of the table appears twice in a top-N selection: the
    index labels it returns are distinct. *)
Theorem X5_nlargest_no_repeat :
  sort_values_ok sort_values_desc ->
  forall (n : nat) (c : column) (df : table) (out : list (nat * row)),
  nlargest n c df = Some out -> NoDup (map fst out).
Proof.
  intros Hsv n c df out Hout.
  destruct (nlargest_spec Hsv n c df out Hout) as [_ [L [-> [HL _]]]].
  rewrite <- firstn_map; apply NoDup_firstn_any.
  apply (Permutation_NoDup (Permutation_map fst (Permutation_sym HL))).
  unfold indexed; rewrite map_fst_combine_seq; apply seq_NoDup.
Qed.

(** X7: the Total Users metric never exceeds the number of rows, and
    equals it exactly when no UserID occurs twice. *)
Theorem X7_total_users_le_rows : forall (df : table),
  (total_users (overview_of df) <= length df)%nat /\
  (total_users (overview_of df) = length df <-> NoDup (ids df)).
Proof.
  intros df; simpl; unfold nunique.
  assert (Hincl : incl (unique (ids df)) (ids df))
    by (intros x Hx; now apply unique_In).
  assert (Hlen : length (ids df) = length df) by apply length_map.
  split; [rewrite <- Hlen; apply NoDup_incl_length; [apply unique_NoDup | exact Hincl]|].
  split.
  - intros Heq; apply (NoDup_incl_NoDup (l := unique (ids df))).
    + apply unique_NoDup.
    + lia.
    + intros x Hx; now apply unique_In.
  - intros Hnd; rewrite <- Hlen; apply Permutation_length, NoDup_Permutation;
      [apply unique_NoDup | exact Hnd |].
    intros x; apply unique_In.
Qed.

(** X8: the select box offers exactly one option more than the Total
    Users metric counts: "Overview" and one option per distinct UserID. *)
Theorem X8_user_list_length : forall (df : table),
  length (user_list df) = S (total_users (overview_of df)).
Proof.
  intros df; simpl; f_equal; apply Permutation_length, sorted_perm.
Qed.

(** X10: whatever file is uploaded and whatever view is picked, the
    script never fails with the [IndexError] of [.iloc[0]]: the picked
    view is always "Overview" or an identifier of the loaded table. *)
Theorem X10_app_no_index_error :
  forall (read_excel : list Byte.byte -> option table) (c : cache)
         (uploaded_file : option upload) (pick : option nat),
  fst (app read_excel c uploaded_file pick) <> Shown IndexError.
Proof.
  intros read_excel c [file|] pick; simpl; [|discriminate].
  destruct (load_data read_excel c file) as [[df|] c']; simpl; [|discriminate].
  destruct (selectbox_In (user_list df) pick) as [o [Hs Hin]]; [discriminate|].
  rewrite Hs; simpl; intros H; injection H as H.
  destruct Hin as [<-|Hin]; [discriminate H|].
  apply user_list_tail_In, find_exists_row in Hin as [r Hf].
  revert H; unfold render; destruct (String.eqb o "Overview"); [discriminate|].
  rewrite iloc0_select_eq, Hf; discriminate.
Qed.

(** X11: right after an upload of a sheet with rows, before any view has
    been picked or after the options changed, the script shows the
    overview of the uploaded table with both top-N charts (the first
    option of the select box is "Overview"), whether the table comes from
    the cache or from parsing. *)
Theorem X11_app_default_overview :
  forall (read_excel : list Byte.byte -> option table) (c : cache)
         (file : upload) (df : table),
  cache_ok read_excel c -> read_excel (content file) = Some df -> df <> [] ->
  fst (app read_excel c (Some file) None) = Shown (OverviewPage (overview_of df)) /\
  exists t10 t20, top_10_users (overview_of df) = Some t10 /\
    top_20_assets (overview_of df) = Some t20.
Proof.
  intros read_excel c file df Hc Hr Hne.
  destruct (load_data_ok read_excel c file Hc) as [H1 _].
  split.
  - simpl; destruct (load_data read_excel c file) as [res c'].
    simpl in H1; rewrite H1, Hr; reflexivity.
  - destruct (nlargest_some 10 CRevenue df Hne) as [t10 H10].
    destruct (nlargest_some 20 CTotalAssets df Hne) as [t20 H20].
    exists t10, t20; split; [exact H10 | exact H20].
Qed.

(** X12: a spreadsheet with a header and no rows offers only the
    "Overview" view; every pick shows the overview, and both of its
    top-N selections raise ([df.nlargest] refuses the object-typed
    columns), so no top-N chart is shown. *)
Theorem X12_app_empty_table :
  forall (read_excel : list Byte.byte -> option table) (c : cache)
         (file : upload) (pick : option nat),
  cache_ok read_excel c -> read_excel (content file) = Some [] ->
  fst (app read_excel c (Some file) pick) = Shown (OverviewPage (overview_of [])) /\
  top_10_users (overview_of []) = None /\ top_20_assets (overview_of []) = None.
Proof.
  intros read_excel c file pick Hc Hr.
  destruct (load_data_ok read_excel c file Hc) as [H1 _].
  split; [|split; reflexivity].
  simpl; destruct (load_data read_excel c file) as [res c'].
  simpl in H1; rewrite H1, Hr.
  destruct pick as [[|[|i]]|]; reflexivity.
Qed.

(** X14: after any sequence of uploads in a process, the memo cache holds
    one entry per distinct upload (file name, read position and content)
    that parsed, none for an upload that failed to parse, and each entry
    is the parser's table for the content of its upload. *)
Theorem X14_cache_contents :
  forall (read_excel : list Byte.byte -> option table)
         (files : list upload),
  NoDup (map fst (load_seq read_excel [] files)) /\
  (forall f, In f (map fst (load_seq read_excel [] files)) <->
     In f files /\ read_excel (content f) <> None) /\
  (forall f t, cache_lookup f (load_seq read_excel [] files) = Some t ->
     read_excel (content f) = Some t).
Proof.
  intros read_excel files.
  destruct (load_seq_inv read_excel files [] (NoDup_nil _)
              (cache_ok_nil read_excel)) as [H1 [H2 H3]].
  split; [exact H1|]; split; [|exact H2].
  intros f; rewrite H3; simpl; tauto.
Qed.

End Page.

(** ** Instances at the stable sort, refutations *)

Lemma C1_witness :
  sort_values_ok sort_desc /\ sample <> [] /\
  exists out, nlargest sort_desc 2 CRevenue sample = Some out /\
    length out = Nat.min 2 (length sample) /\
    (forall k r, In (k, r) out -> nth_error sample k = Some r) /\
    (forall i j d, (i < j < length out)%nat ->
       get CRevenue (snd (nth j out d)) <= get CRevenue (snd (nth i out d))) /\
    ((2 < length sample)%nat -> forall i j d, (i < j < length out)%nat ->
       get CRevenue (snd (nth i out d)) == get CRevenue (snd (nth j out d)) ->
       (fst (nth i out d) < fst (nth j out d))%nat) /\
    nlargest sort_desc 2 CRevenue [] = None /\
    option_map (map (fun ir => UserID (snd ir))) (nlargest sort_desc 2 CRevenue sample)
    = Some ["B"; "C"]%string.
Proof.
  assert (H : sample <> []) by discriminate.
  split; [exact sort_desc_ok|]; split; [exact H|].
  exact (C1_nlargest_top_n sort_desc sort_desc_ok 2 CRevenue sample H).
Defined.

(** C1 (as stated, refuted): on a table with no rows [df.nlargest]
    raises instead of returning min(n, 0) = 0 rows. *)
Lemma C1_counterexample : ~ (forall (n : nat) (c : column) (df : table),
  exists out, nlargest sort_desc n c df = Some out /\
    length out = Nat.min n (length df)).
Proof.
  intros H; destruct (H 10%nat CRevenue []) as [out [Hout _]].
  simpl in Hout; discriminate Hout.
Qed.

Lemma C2_witness : In "B"%string (user_list sample) /\
  (sample <> [] -> "B"%string = "Overview"%string ->
   render sort_desc sample "B" = OverviewPage (overview_of sort_desc sample) /\
   exists t10 t20, top_10_users (overview_of sort_desc sample) = Some t10 /\
     top_20_assets (overview_of sort_desc sample) = Some t20) /\
  ("B"%string <> "Overview"%string ->
   exists r, In r sample /\ UserID r = "B"%string /\
     render sort_desc sample "B"
     = UserPage "B" (drill r (mean (series CNetProfitMargin sample)))) /\
  (sample = [] -> "B"%string = "Overview"%string /\
   render sort_desc sample "B" = OverviewPage (overview_of sort_desc sample) /\
   top_10_users (overview_of sort_desc sample) = None /\
   top_20_assets (overview_of sort_desc sample) = None).
Proof.
  assert (H : In "B"%string (user_list sample)) by (simpl; tauto).
  split; [exact H|]. exact (C2_render_selection sort_desc sample "B" H).
Defined.

(** C2 (as stated, refuted): a sheet with a header and no rows offers only
    "Overview", and its overview has no top-N chart. *)
Lemma C2_counterexample : ~ (forall (df : table) (sel : string),
  In sel (user_list df) -> sel = "Overview"%string ->
  exists o, render sort_desc df sel = OverviewPage o /\
    top_10_users o <> None /\ top_20_assets o <> None).
Proof.
  intros H.
  destruct (H [] "Overview"%string (or_introl eq_refl) eq_refl)
    as [o [Hr [H10 _]]].
  unfold render in Hr; simpl in Hr; injection Hr as <-.
  apply H10; reflexivity.
Qed.


(** C4 (as stated, refuted): the later rows sharing the selected UserID
    do change the drill-down page, since the Company Average Net Profit
    Margin and its delta are computed over every row.  Two tables whose
    first row is the same selected row and whose second rows, with the
    same UserID, differ only in NetProfitMargin render different pages. *)
Lemma C4_counterexample : ~ (forall (r r1 r2 : row),
  UserID r1 = UserID r -> UserID r2 = UserID r ->
  render sort_desc [r; r1] (UserID r) = render sort_desc [r; r2] (UserID r)).
Proof.
  intros H.
  specialize (H (mk "U" 1 10 0) (mk "U" 1 20 0) (mk "U" 1 40 0)
                eq_refl eq_refl).
  vm_compute in H; discriminate H.
Qed.

Lemma C4_witness :
  "U"%string <> "Overview"%string /\
  Forall (fun x => UserID x <> "U"%string) [rowA] /\
  UserID (mk "U" 1 10 0) = "U"%string /\
  render sort_desc ([rowA] ++ mk "U" 1 10 0 :: [mk "U" 1 20 0]) "U"
  = UserPage "U" (drill (mk "U" 1 10 0)
      (mean (series CNetProfitMargin ([rowA] ++ mk "U" 1 10 0 :: [mk "U" 1 20 0])))).
Proof.
  assert (H1 : "U"%string <> "Overview"%string) by discriminate.
  assert (H2 : Forall (fun x => UserID x <> "U"%string) [rowA])
    by (repeat constructor; discriminate).
  assert (H3 : UserID (mk "U" 1 10 0) = "U"%string) by reflexivity.
  split; [exact H1|]; split; [exact H2|]; split; [exact H3|].
  exact (C4_first_match sort_desc [rowA] (mk "U" 1 10 0) [mk "U" 1 20 0] "U"
           H1 H2 H3).
Defined.

Lemma C5_witness : In "C"%string (user_list sample) /\
  "C"%string <> "Overview"%string /\
  iloc0 (select_eq sample "C") <> None /\ render sort_desc sample "C" <> IndexError.
Proof.
  assert (H1 : In "C"%string (user_list sample)) by (simpl; tauto).
  assert (H2 : "C"%string <> "Overview"%string) by discriminate.
  split; [exact H1|]; split; [exact H2|].
  exact (C5_no_index_error sort_desc sample "C" H1 H2).
Defined.

Lemma C6_witness :
  nth_error [upload_a; upload_b] 0 = Some upload_a /\
  nth_error [upload_a; upload_b] 1 = Some upload_b /\
  content upload_a = content upload_b /\
  nth_error (load_all (fun _ => Some sample) [] [upload_a; upload_b]) 0
    = Some (Some sample) /\
  nth_error (load_all (fun _ => Some sample) [] [upload_a; upload_b]) 1
    = Some (Some sample) /\
  (forall sel,
     option_map (option_map (fun df => render sort_desc df sel))
       (nth_error (load_all (fun _ => Some sample) [] [upload_a; upload_b]) 0)
     = option_map (option_map (fun df => render sort_desc df sel))
       (nth_error (load_all (fun _ => Some sample) [] [upload_a; upload_b]) 1)).
Proof.
  assert (H0 : nth_error [upload_a; upload_b] 0 = Some upload_a) by reflexivity.
  assert (H1 : nth_error [upload_a; upload_b] 1 = Some upload_b) by reflexivity.
  assert (H2 : content upload_a = content upload_b) by reflexivity.
  split; [exact H0|]; split; [exact H1|]; split; [exact H2|].
  exact (C6_load_deterministic sort_desc (fun _ => Some sample)
           [upload_a; upload_b] 0 1 upload_a upload_b H0 H1 H2).
Defined.

Lemma C7_witness :
  NoDup ["A"; "B"]%string /\
  (forall x, In x ["A"; "B"]%string
             <-> In x (ids [rowA; rowB; mk "A" 5 5 5])) /\
  total_users (overview_of sort_desc [rowA; rowB; mk "A" 5 5 5]) = 2%nat.
Proof.
  assert (H1 : NoDup ["A"; "B"]%string).
  { constructor; [simpl; intros [H|[]]; discriminate | constructor; [simpl; tauto | constructor]]. }
  assert (H2 : forall x, In x ["A"; "B"]%string
                         <-> In x (ids [rowA; rowB; mk "A" 5 5 5])).
  { intros x; simpl; split; [tauto|]. intros [H|[H|[H|[]]]]; subst; simpl; tauto. }
  split; [exact H1|]; split; [exact H2|].
  exact (C7_total_users sort_desc [rowA; rowB; mk "A" 5 5 5] ["A"; "B"]%string H1 H2).
Defined.

Lemma C10_witness :
  render sort_desc sample "C"
  = UserPage "C" (drill rowC (mean (series CNetProfitMargin sample))) /\
  In rowC sample /\
  exists m, avg_npm (drill rowC (mean (series CNetProfitMargin sample))) = Some m /\
    m == column_total CNetProfitMargin sample / inject_Z (Z.of_nat (length sample)) /\
    delta_vs_avg (drill rowC (mean (series CNetProfitMargin sample)))
    = Some (NetProfitMargin rowC - m).
Proof.
  assert (H : render sort_desc sample "C"
              = UserPage "C" (drill rowC (mean (series CNetProfitMargin sample))))
    by reflexivity.
  split; [exact H|].
  exact (C10_delta_vs_avg sort_desc sample "C" "C" _ H).
Defined.

Lemma X2_witness :
  sort_values_ok sort_desc /\
  nlargest sort_desc 2 CRevenue sample = Some [(1%nat, rowB); (2%nat, rowC)] /\
  nth_error sample 0 = Some rowA /\
  ~ In 0%nat (map fst [(1%nat, rowB); (2%nat, rowC)]) /\
  (forall p, In p [(1%nat, rowB); (2%nat, rowC)] ->
     get CRevenue rowA <= get CRevenue (snd p)).
Proof.
  assert (H1 : nlargest sort_desc 2 CRevenue sample
               = Some [(1%nat, rowB); (2%nat, rowC)]) by reflexivity.
  assert (H2 : nth_error sample 0 = Some rowA) by reflexivity.
  assert (H3 : ~ In 0%nat (map fst [(1%nat, rowB); (2%nat, rowC)])).
  { simpl; intros [H|[H|[]]]; discriminate. }
  split; [exact sort_desc_ok|]; split; [exact H1|]; split; [exact H2|];
    split; [exact H3|].
  exact (X2_nlargest_keeps_largest sort_desc sort_desc_ok 2 CRevenue sample _
           0 rowA H1 H2 H3).
Defined.

Lemma X4_witness :
  sort_values_ok sort_desc /\ sample <> [] /\ (length sample <= 10)%nat /\
  exists out, nlargest sort_desc 10 CRevenue sample = Some out /\
    Permutation (map snd out) sample.
Proof.
  assert (H1 : sample <> []) by discriminate.
  assert (H2 : (length sample <= 10)%nat) by (simpl; lia).
  split; [exact sort_desc_ok|]; split; [exact H1|]; split; [exact H2|].
  exact (X4_nlargest_all_rows sort_desc sort_desc_ok 10 CRevenue sample H1 H2).
Defined.

Lemma X5_witness :
  sort_values_ok sort_desc /\
  nlargest sort_desc 10 CTotalAssets sample
  = Some [(2%nat, rowC); (1%nat, rowB); (0%nat, rowA)] /\
  NoDup (map fst [(2%nat, rowC); (1%nat, rowB); (0%nat, rowA)]).
Proof.
  assert (H : nlargest sort_desc 10 CTotalAssets sample
              = Some [(2%nat, rowC); (1%nat, rowB); (0%nat, rowA)]) by reflexivity.
  split; [exact sort_desc_ok|]; split; [exact H|].
  exact (X5_nlargest_no_repeat sort_desc sort_desc_ok 10 CTotalAssets sample _ H).
Defined.

Lemma X11_witness :
  cache_ok (fun _ => Some sample) [] /\
  (fun _ => Some sample) (content upload_a) = Some sample /\ sample <> [] /\
  fst (app sort_desc (fun _ => Some sample) [] (Some upload_a) None)
  = Shown (OverviewPage (overview_of sort_desc sample)) /\
  exists t10 t20, top_10_users (overview_of sort_desc sample) = Some t10 /\
    top_20_assets (overview_of sort_desc sample) = Some t20.
Proof.
  assert (H1 : cache_ok (fun _ => Some sample) []) by apply cache_ok_nil.
  assert (H2 : (fun _ : list Byte.byte => Some sample) (content upload_a) = Some sample)
    by reflexivity.
  assert (H3 : sample <> []) by discriminate.
  split; [exact H1|]; split; [exact H2|]; split; [exact H3|].
  exact (X11_app_default_overview sort_desc _ [] upload_a sample H1 H2 H3).
Defined.

Lemma X12_witness :
  cache_ok (fun _ => Some []) [] /\
  (fun _ => Some []) (content upload_a) = Some (@nil row) /\
  fst (app sort_desc (fun _ => Some []) [] (Some upload_a) (Some 3%nat))
  = Shown (OverviewPage (overview_of sort_desc [])) /\
  top_10_users (overview_of sort_desc []) = None /\
  top_20_assets (overview_of sort_desc []) = None.
Proof.
  assert (H1 : cache_ok (fun _ => Some []) []) by apply cache_ok_nil.
  assert (H2 : (fun _ : list Byte.byte => Some (@nil row)) (content upload_a)
               = Some (@nil row)) by reflexivity.
  split; [exact H1|]; split; [exact H2|].
  exact (X12_app_empty_table sort_desc _ [] upload_a (Some 3%nat) H1 H2).
Defined.
